(** * qgrad.qutip: quantum-mechanics helpers, embedded in Rocq

    A shallow embedding of [src/qgrad/qutip.py]: the state fidelity and
    expectation dispatch, the ladder operators built through the compressed
    sparse row (CSR) format, the squeezing operator, and the [Displacer]
    class (displacement operator through a precomputed eigensystem).

    Conventions of the embedding.
    - NumPy/JAX floating-point numbers are idealised as real numbers ([R]);
      complex numbers are pairs of reals ([C]).  Where the program divides,
      IEEE non-finite values matter (a division by zero gives no exception
      under NumPy, it gives nan or inf): [cfloat] adds one non-finite value.
    - One- and two-dimensional arrays are lists and lists of rows.
    - Python exceptions are an explicit error type; fallible code lives in the
      [result] monad.
    - A global name resolves through the names that the module binds.  The
      imports of lines 4-8 bind [csr_matrix], [index], [index_update], [jnp],
      [expm], [sqrtm] and [matrix_power]; they bind neither [np] nor [scipy],
      the two names that [Displacer] uses, so resolving either of them
      raises a [NameError].
    - Numerical library routines with no closed form (the symmetric
      tridiagonal eigensolver, the matrix exponential, the matrix square
      root) are section variables. *)

From Stdlib Require Import Reals Lra Lia ZArith String Bool List.
Import ListNotations.

Local Open Scope R_scope.

(** ** Exceptions and the result monad *)

Inductive exn : Type :=
| ValueError (msg : string)
| TypeError (msg : string)
| IndexError (msg : string)
| NameError (msg : string)
| ZeroDivisionError (msg : string).

Inductive result (A : Type) : Type :=
| Ok (a : A)
| Error (e : exn).

Arguments Ok {A} a.
Arguments Error {A} e.

Definition bind {A B : Type} (m : result A) (k : A -> result B) : result B :=
  match m with
  | Ok a => k a
  | Error e => Error e
  end.

Notation "x <- m ;; k" := (bind m (fun x => k))
  (at level 61, m at next level, right associativity).

Definition raises {A : Type} (m : result A) : Prop :=
  exists e, m = Error e.

Definition returns {A : Type} (m : result A) : Prop :=
  exists a, m = Ok a.

(** ** Complex numbers over the reals *)

Record C : Type := mkC { Re : R; Im : R }.

Definition RtoC (x : R) : C := mkC x 0.
Definition C0 : C := mkC 0 0.
Definition C1 : C := mkC 1 0.
Definition Ci : C := mkC 0 1.

Definition Cplus (a b : C) : C := mkC (Re a + Re b) (Im a + Im b).
Definition Copp (a : C) : C := mkC (- Re a) (- Im a).
Definition Cminus (a b : C) : C := Cplus a (Copp b).
Definition Cmult (a b : C) : C :=
  mkC (Re a * Re b - Im a * Im b) (Re a * Im b + Im a * Re b).
Definition Cconj (a : C) : C := mkC (Re a) (- Im a).
Definition Cnorm2 (a : C) : R := Re a * Re a + Im a * Im a.
Definition Cmod (a : C) : R := sqrt (Cnorm2 a).
Definition Cinv (a : C) : C :=
  mkC (Re a / Cnorm2 a) (- Im a / Cnorm2 a).
Definition Cexp (a : C) : C :=
  mkC (exp (Re a) * cos (Im a)) (exp (Re a) * sin (Im a)).

Fixpoint Cpow (a : C) (n : nat) : C :=
  match n with
  | O => C1
  | S m => Cmult a (Cpow a m)
  end.

Definition C_eq_dec (a b : C) : {a = b} + {a <> b}.
Proof.
  destruct a as [x y], b as [x' y'].
  destruct (Req_dec_T x x') as [-> | Hx].
  - destruct (Req_dec_T y y') as [-> | Hy].
    + left; reflexivity.
    + right; intros H; injection H; auto.
  - right; intros H; injection H; auto.
Defined.

(** ** Complex floats: finite values and one non-finite value

    [NonFin] stands for an IEEE result with a nan or inf component.  It is
    absorbing for the arithmetic used here; only a power with exponent zero
    leaves it (NumPy's complex power returns 1 for a zero exponent before it
    looks at the base). *)

Inductive cfloat : Type :=
| Fin (z : C)
| NonFin.

Definition cf_lift2 (f : C -> C -> C) (a b : cfloat) : cfloat :=
  match a, b with
  | Fin x, Fin y => Fin (f x y)
  | _, _ => NonFin
  end.

Definition cf_add : cfloat -> cfloat -> cfloat := cf_lift2 Cplus.
Definition cf_mul : cfloat -> cfloat -> cfloat := cf_lift2 Cmult.

Definition cf_conj (a : cfloat) : cfloat :=
  match a with
  | Fin x => Fin (Cconj x)
  | NonFin => NonFin
  end.

(** [z / r] for a complex [z] and a real float [r]: a zero divisor gives a
    non-finite value (and a warning), not an exception. *)
Definition cf_div_real (z : C) (r : R) : cfloat :=
  if Req_dec_T r 0 then NonFin else Fin (Cmult z (RtoC (/ r))).

(** [1 / z]. *)
Definition cf_recip (z : C) : cfloat :=
  if C_eq_dec z C0 then NonFin else Fin (Cinv z).

(** [base ** e] for an integer exponent: 1 for a zero exponent, repeated
    multiplication for a positive one, and the reciprocal of the positive
    power for a negative one. *)
Definition cf_pow (base : cfloat) (e : Z) : cfloat :=
  if (e =? 0)%Z then Fin C1
  else match base with
       | NonFin => NonFin
       | Fin z =>
           if (0 <? e)%Z then Fin (Cpow z (Z.to_nat e))
           else cf_recip (Cpow z (Z.to_nat (- e)))
       end.

(** ** Scalars of array elements *)

Class Scalar (X : Type) : Type := {
  szero : X;
  sadd : X -> X -> X;
  smul : X -> X -> X;
  sconj : X -> X
}.

#[global] Instance R_Scalar : Scalar R :=
  {| szero := 0; sadd := Rplus; smul := Rmult; sconj := fun x => x |}.

#[global] Instance C_Scalar : Scalar C :=
  {| szero := C0; sadd := Cplus; smul := Cmult; sconj := Cconj |}.

#[global] Instance cfloat_Scalar : Scalar cfloat :=
  {| szero := Fin C0; sadd := cf_add; smul := cf_mul; sconj := cf_conj |}.

(** ** Arrays *)

Section Arrays.
Context {X : Type} `{Scalar X}.

Definition matrix := list (list X).

Fixpoint zip_with {A B D : Type} (f : A -> B -> D) (l : list A) (l' : list B)
  : list D :=
  match l, l' with
  | a :: t, b :: t' => f a b :: zip_with f t t'
  | _, _ => []
  end.

Definition ssum (l : list X) : X := fold_right sadd szero l.

Definition nrows (M : matrix) : nat := length M.
Definition ncols (M : matrix) : nat :=
  match M with
  | [] => O
  | r :: _ => length r
  end.

Definition entry (M : matrix) (p q : nat) : X := nth q (nth p M []) szero.
Definition column (M : matrix) (q : nat) : list X :=
  map (fun row => nth q row szero) M.

(** [M.T] *)
Definition transpose (M : matrix) : matrix :=
  map (column M) (seq 0 (ncols M)).

(** [conj(M)] *)
Definition mconj (M : matrix) : matrix := map (map sconj) M.

(** Inner product of two one-dimensional arrays, no conjugation. *)
Definition dot1 (u v : list X) : X := ssum (zip_with smul u v).

(** [v[:, None] * M]: the column [v] against the rows of [M], under
    NumPy's broadcasting rule for the first axis. *)
Definition scale_rows (v : list X) (M : matrix) : result matrix :=
  if (length v =? length M)%nat then
    Ok (zip_with (fun c row => map (smul c) row) v M)
  else if (length v =? 1)%nat then
    Ok (map (fun row => map (smul (hd szero v)) row) M)
  else if (length M =? 1)%nat then
    Ok (map (fun c => map (smul c) (hd [] M)) v)
  else Error (ValueError "operands could not be broadcast together").

(** [A @ B] and [dot(A, B)] on two-dimensional arrays. *)
Definition matmul (A B : matrix) : result matrix :=
  if (ncols A =? nrows B)%nat then
    Ok (map (fun row => map (fun col => dot1 row col) (transpose B)) A)
  else Error (ValueError "matmul: mismatch in the core dimension").

(** [trace(M)] *)
Definition trace (M : matrix) : X :=
  ssum (map (fun k => entry M k k) (seq 0 (Nat.min (nrows M) (ncols M)))).

Definition rectangular (r c : nat) (M : matrix) : Prop :=
  length M = r /\ Forall (fun row => length row = c) M.

(** The array with entry [f k] at index [k], and the [r]-by-[c] array with
    entry [f p q] at [(p, q)]. *)
Definition mk_vec (n : nat) (f : nat -> X) : list X := map f (seq 0 n).
Definition mk_matrix (r c : nat) (f : nat -> nat -> X) : matrix :=
  map (fun p => mk_vec c (f p)) (seq 0 r).
End Arrays.

Arguments matrix X : clear implicits.

(** Finite sums [f 0 + ... + f (n-1)] of complex numbers. *)
Definition Csum (f : nat -> C) (n : nat) : C := ssum (mk_vec n f).

(** ** Python values that reach the functions *)

(** A Hilbert-space dimension argument: a Python [int], a [jnp.integer], or
    anything else (a Python float stands for the non-integers). *)
Inductive pyobj : Type :=
| PyInt (z : Z)
| JnpInteger (z : Z)
| PyFloat (x : R).

(** [isinstance(N, (int, jnp.integer))] *)
Definition is_integer (N : pyobj) : bool :=
  match N with
  | PyInt _ | JnpInteger _ => true
  | PyFloat _ => false
  end.

(** Arrays of dimension 0, 1 and 2, as [asarray] makes them from a number, a
    flat list and a list of rows. *)
Inductive ndarray (X : Type) : Type :=
| Arr0 (x : X)
| Arr1 (v : list X)
| Arr2 (M : list (list X)).

Arguments Arr0 {X} x.
Arguments Arr1 {X} v.
Arguments Arr2 {X} M.

(** [a.shape] *)
Definition shape {X : Type} (a : ndarray X) : list nat :=
  match a with
  | Arr0 _ => []
  | Arr1 v => [length v]
  | Arr2 M => [length M; match M with [] => O | r :: _ => length r end]
  end.

(** [t[i]] on a shape tuple. *)
Definition tuple_get (t : list nat) (i : nat) : result nat :=
  match nth_error t i with
  | Some d => Ok d
  | None => Error (IndexError "tuple index out of range")
  end.

(** ** Integer ranges *)

(** The integers [a, a+1, ..., b-1]. *)
Definition arange (a b : Z) : list Z :=
  map (fun i => (a + Z.of_nat i)%Z) (seq 0 (Z.to_nat (b - a))).

(** The least integer not below [x]. *)
Definition ceilZ (x : R) : Z := (1 - up (- x))%Z.

(** [jnp.arange(start, stop)]: with two arguments the values come from
    [numpy.arange], empty when [stop <= start]. *)
Definition jnp_arange (start stop : Z) : list Z := arange start stop.

Definition iota_msg : string :=
  "iota shape must have every element be nonnegative".

(** [jnp.arange(stop)]: with one argument the values come from [lax.iota],
    which refuses a negative length. *)
Definition jnp_arange1 (stop : Z) : result (list Z) :=
  if (stop <? 0)%Z then Error (TypeError iota_msg) else Ok (arange 0 stop).

(** [np.arange(a, stop)]: for a float [stop] the values are still
    [a, a+1, ...], as long as they stay below [stop]. *)
Definition np_arange (a : Z) (stop : pyobj) : list Z :=
  match stop with
  | PyInt n | JnpInteger n => arange a n
  | PyFloat x => arange a (ceilZ x)
  end.

(** [np.zeros(n)] *)
Definition np_zeros (n : pyobj) : result (list R) :=
  match n with
  | PyInt z | JnpInteger z =>
      if (z <? 0)%Z then Error (ValueError "negative dimensions are not allowed")
      else Ok (repeat 0 (Z.to_nat z))
  | PyFloat _ =>
      Error (TypeError "'float' object cannot be interpreted as an integer")
  end.

(** Elementwise product of two one-dimensional arrays, with broadcasting. *)
Definition np_multiply {X : Type} `{Scalar X} (u v : list X) : result (list X) :=
  if (length u =? length v)%nat then Ok (zip_with smul u v)
  else if (length u =? 1)%nat then Ok (map (smul (hd szero u)) v)
  else if (length v =? 1)%nat then Ok (map (fun x => smul x (hd szero v)) u)
  else Error (ValueError "operands could not be broadcast together").

(** ** fidelity *)

Inductive branch : Type := DensityMatrix | Ket.

Definition map_nd {X Y : Type} (f : X -> Y) (a : ndarray X) : ndarray Y :=
  match a with
  | Arr0 x => Arr0 (f x)
  | Arr1 v => Arr1 (map f v)
  | Arr2 M => Arr2 (map (map f) M)
  end.

(** [jnp.transpose(a)] *)
Definition nd_transpose {X : Type} `{Scalar X} (a : ndarray X) : ndarray X :=
  match a with
  | Arr2 M => Arr2 (transpose M)
  | _ => a
  end.

Definition dot_msg : string := "Incompatible shapes for dot".

(** [jnp.dot(a, b)] *)
Definition jnp_dot {X : Type} `{Scalar X} (a b : ndarray X) : result (ndarray X) :=
  match a, b with
  | Arr0 x, _ => Ok (map_nd (smul x) b)
  | _, Arr0 y => Ok (map_nd (fun x => smul x y) a)
  | Arr1 u, Arr1 v =>
      if (length u =? length v)%nat then Ok (Arr0 (dot1 u v))
      else Error (TypeError dot_msg)
  | Arr2 A, Arr1 v =>
      if (ncols A =? length v)%nat then Ok (Arr1 (map (fun row => dot1 row v) A))
      else Error (TypeError dot_msg)
  | Arr1 u, Arr2 B =>
      if (length u =? nrows B)%nat then Ok (Arr1 (map (dot1 u) (transpose B)))
      else Error (TypeError dot_msg)
  | Arr2 A, Arr2 B =>
      if (ncols A =? nrows B)%nat then
        Ok (Arr2 (map (fun row => map (dot1 row) (transpose B)) A))
      else Error (TypeError dot_msg)
  end.

(** [jnp.trace(a)] *)
Definition jnp_trace {X : Type} `{Scalar X} (a : ndarray X) : result X :=
  match a with
  | Arr2 M => Ok (trace M)
  | _ => Error (ValueError "trace requires an array of at least two dimensions")
  end.

(** [a.ravel()] *)
Definition ravel {X : Type} (a : ndarray X) : list X :=
  match a with
  | Arr0 x => [x]
  | Arr1 v => v
  | Arr2 M => concat M
  end.

(** [jnp.vdot(a, b)]: both flattened, the first conjugated. *)
Definition jnp_vdot (a b : ndarray C) : result C :=
  if (length (ravel a) =? length (ravel b))%nat
  then Ok (dot1 (map Cconj (ravel a)) (ravel b))
  else Error (TypeError dot_msg).

Definition _fidelity_ket (a b : ndarray C) : result (ndarray R) :=
  d <- jnp_dot (nd_transpose (map_nd Cconj a)) b ;;
  Ok (map_nd (fun z => Cmod z ^ 2) d).

Section Fidelity.
(** [scipy.linalg.sqrtm] on a square matrix. *)
Variable sqrtm_square : matrix C -> matrix C.

Definition sqrtm (a : ndarray C) : result (ndarray C) :=
  match a with
  | Arr2 M =>
      if (nrows M =? ncols M)%nat then Ok (Arr2 (sqrtm_square M))
      else Error (ValueError "Non-square matrix input to matrix function.")
  | _ => Error (ValueError "Non-square matrix input to matrix function.")
  end.

Definition _fidelity_dm (a b : ndarray C) : result C :=
  let dm1 := a in
  let dm2 := b in
  s1 <- sqrtm dm1 ;;
  p <- jnp_dot s1 dm2 ;;
  s1' <- sqrtm dm1 ;;
  p' <- jnp_dot p s1' ;;
  s <- sqrtm p' ;;
  t <- jnp_trace s ;;
  Ok (Cpow t 2).

(** The test of line 23, with Python's short-circuit [or]. *)
Definition fidelity_dispatch (a b : ndarray C) : result branch :=
  sa <- tuple_get (shape a) 1 ;;
  if (2 <=? sa)%nat then Ok DensityMatrix
  else
    sb <- tuple_get (shape b) 1 ;;
    if (2 <=? sb)%nat then Ok DensityMatrix else Ok Ket.

(** The value of [fidelity]: a real array from the ket branch, a complex
    number from the density-matrix branch. *)
Inductive fidelity_value : Type :=
| OfKets (x : ndarray R)
| OfDms (x : C).

Definition fidelity (a b : ndarray C) : result fidelity_value :=
  br <- fidelity_dispatch a b ;;
  match br with
  | DensityMatrix => x <- _fidelity_dm a b ;; Ok (OfDms x)
  | Ket => x <- _fidelity_ket a b ;; Ok (OfKets x)
  end.
End Fidelity.

(** A ket as a column vector: the two-dimensional array of shape
    [(length v, 1)]. *)
Definition column_ket (v : list C) : ndarray C := Arr2 (map (fun x => [x]) v).

(** The second axis of an array, when it has one. *)
Definition second_axis {X : Type} (a : ndarray X) : option nat :=
  nth_error (shape a) 1.

(** ** expect *)

Definition _expect_dm (oper state : ndarray C) : result C :=
  let rho := state in
  p <- jnp_dot rho oper ;;
  jnp_trace p.

Definition _expect_ket (oper state : ndarray C) : result C :=
  let ket := state in
  p <- jnp_dot oper ket ;;
  jnp_vdot (nd_transpose ket) p.

Definition expect_dispatch (state : ndarray C) : result branch :=
  s <- tuple_get (shape state) 1 ;;
  if (2 <=? s)%nat then Ok DensityMatrix else Ok Ket.

Definition expect (oper state : ndarray C) : result C :=
  br <- expect_dispatch state ;;
  match br with
  | DensityMatrix => _expect_dm oper state
  | Ket => _expect_ket oper state
  end.

(** ** Ladder operators through the CSR format *)

Definition dimension_msg : string :=
  "Hilbert space dimension must be an integer value".
Definition shape_msg : string := "'shape' elements cannot be negative".
Definition indptr_size_msg : string := "index pointer size should be M+1".
Definition indptr_start_msg : string := "index pointer should start with 0".
Definition indices_size_msg : string :=
  "indices and data should have the same size".
Definition indptr_last_msg : string :=
  "Last value of index pointer should be less than the size of index and data arrays".

(** [x[i]] with Python's negative indices; [None] when out of range. *)
Definition py_index (len : nat) (i : Z) : option nat :=
  let j := if (i <? 0)%Z then (i + Z.of_nat len)%Z else i in
  if ((0 <=? j) && (j <? Z.of_nat len))%Z then Some (Z.to_nat j) else None.

Fixpoint list_set {A : Type} (l : list A) (i : nat) (y : A) : list A :=
  match l, i with
  | [], _ => []
  | _ :: t, O => y :: t
  | x :: t, S j => x :: list_set t j y
  end.

(** [jax.ops.index_update(x, index[i], y)]: the pure counterpart of
    [x[i] = y].  It returns the updated copy and leaves [x] as it is. *)
Definition index_update (x : list Z) (i : Z) (y : Z) : list Z :=
  match py_index (length x) i with
  | Some j => list_set x j y
  | None => x
  end.

(** A matrix in compressed sparse row form. *)
Record csr : Type := mkCsr {
  csr_data : list R;
  csr_indices : list Z;
  csr_indptr : list Z;
  csr_shape : Z * Z
}.

(** [scipy.sparse.csr_matrix((data, indices, indptr), shape=shape)]: the
    constructor with its format check. *)
Definition csr_matrix (data : list R) (indices indptr : list Z) (shp : Z * Z)
  : result csr :=
  if ((fst shp <? 0) || (snd shp <? 0))%Z then Error (ValueError shape_msg)
  else if negb (Z.of_nat (length indptr) =? fst shp + 1)%Z
       then Error (ValueError indptr_size_msg)
  else if negb (nth 0 indptr 0 =? 0)%Z
       then Error (ValueError indptr_start_msg)
  else if negb (length indices =? length data)%nat
       then Error (ValueError indices_size_msg)
  else if (Z.of_nat (length indices) <? last indptr 0)%Z
       then Error (ValueError indptr_last_msg)
  else Ok (mkCsr data indices indptr shp).

(** The entry [(i, j)] that the CSR arrays denote: the stored values of row
    [i] are [data[indptr[i] : indptr[i+1]]], at the columns
    [indices[indptr[i] : indptr[i+1]]]; equal columns add up. *)
Definition csr_entry (data : list R) (indices indptr : list Z) (i j : nat) : R :=
  let lo := Z.to_nat (nth i indptr 0%Z) in
  let hi := Z.to_nat (nth (S i) indptr 0%Z) in
  fold_right Rplus 0
    (map (fun p => if (nth p indices (-1) =? Z.of_nat j)%Z then nth p data 0 else 0)
         (filter (fun p => (p <? length data)%nat) (seq lo (hi - lo)))).

(** [m.toarray()] *)
Definition toarray (m : csr) : matrix R :=
  map (fun i =>
         map (fun j => csr_entry (csr_data m) (csr_indices m) (csr_indptr m) i j)
             (seq 0 (Z.to_nat (snd (csr_shape m)))))
      (seq 0 (Z.to_nat (fst (csr_shape m)))).

(** What [destroy] and [create] return: the sparse matrix or the array. *)
Inductive operator : Type :=
| Sparse (m : csr)
| Dense (M : matrix R).

Definition int_of (N : pyobj) : Z :=
  match N with
  | PyInt z | JnpInteger z => z
  | PyFloat x => ceilZ x
  end.

(** The three arrays that [destroy] hands to [csr_matrix] (lines 142-147). *)
Definition destroy_arrays (N : Z) : result (list R * list Z * list Z) :=
  let data := map (fun k => sqrt (IZR k)) (jnp_arange 1 N) in
  let ind := jnp_arange 1 N in
  ptr <- jnp_arange1 (N + 1) ;;
  let _ := index_update ptr (-1) (N - 1) in
  Ok (data, ind, ptr).

Definition destroy (N : pyobj) (full : bool) : result operator :=
  if negb (is_integer N) then Error (ValueError dimension_msg)
  else
    let n := int_of N in
    arrays <- destroy_arrays n ;;
    let '(data, ind, ptr) := arrays in
    m <- csr_matrix data ind ptr (n, n) ;;
    if full then Ok (Sparse m) else Ok (Dense (toarray m)).

(** The three arrays that [create] hands to [csr_matrix] (lines 170-175). *)
Definition create_arrays (N : Z) : result (list R * list Z * list Z) :=
  let data := map (fun k => sqrt (IZR k)) (jnp_arange 1 N) in
  let ind := jnp_arange 0 (N - 1) in
  ptr <- jnp_arange1 (N + 1) ;;
  let _ := index_update ptr 0 0 in
  Ok (data, ind, ptr).

Definition create (N : pyobj) (full : bool) : result operator :=
  if negb (is_integer N) then Error (ValueError dimension_msg)
  else
    let n := int_of N in
    arrays <- create_arrays n ;;
    let '(data, ind, ptr) := arrays in
    m <- csr_matrix data ind ptr (n, n) ;;
    if full then Ok (Sparse m) else Ok (Dense (toarray m)).

(** The matrices that the two operators are meant to be: [sqrt(k)] at
    [(k-1, k)] for the lowering operator, at [(k, k-1)] for the raising
    operator, zero elsewhere. *)
Definition lowering_entry (i j : nat) : R :=
  if (j =? S i)%nat then sqrt (INR j) else 0.
Definition raising_entry (i j : nat) : R := lowering_entry j i.

(** ** squeeze *)

(** [numpy.linalg.matrix_power(a, 2)] *)
Definition matrix_power2 (a : operator) : result (matrix R) :=
  match a with
  | Dense M =>
      if (nrows M =? ncols M)%nat then
        Ok (map (fun row => map (dot1 row) (transpose M)) M)
      else Error (ValueError "Last 2 dimensions of the array must be square")
  | Sparse _ => Error (TypeError "input must be an array")
  end.

(** A complex scalar times a real array. *)
Definition cscale (z : C) (M : matrix R) : matrix C :=
  map (map (fun x => Cmult z (RtoC x))) M.

Definition msub (A B : matrix C) : matrix C :=
  zip_with (zip_with Cminus) A B.

(** The argument of [expm] in line 261, from the two squared operators. *)
Definition squeeze_op (z : C) (a2 c2 : matrix R) : matrix C :=
  map (map (Cmult (RtoC (1 / 2)))) (msub (cscale (Cconj z) a2) (cscale z c2)).

Section Squeeze.
(** [scipy.linalg.expm] *)
Variable expm : matrix C -> matrix C.

Definition squeeze (N : pyobj) (z : C) : result (matrix C) :=
  a <- destroy N false ;;
  a2 <- matrix_power2 a ;;
  c <- create N false ;;
  c2 <- matrix_power2 c ;;
  Ok (expm (squeeze_op z a2 c2)).
End Squeeze.

(** ** The global names of the module *)

(** The global names bound when the module has been loaded: by the imports
    of lines 4-8 and by the definitions of the module itself.  (Built-in
    names such as [isinstance] resolve elsewhere; neither [np] nor [scipy]
    is one.) *)
Definition module_globals : list string :=
  ["csr_matrix"; "index"; "index_update"; "jnp"; "expm"; "sqrtm";
   "matrix_power"; "fidelity"; "_fidelity_ket"; "_fidelity_dm"; "rot";
   "sigmax"; "sigmay"; "sigmaz"; "destroy"; "create"; "expect";
   "_expect_dm"; "_expect_ket"; "Displacer"; "squeeze"]%string.

Definition undefined_msg (x : string) : string :=
  ("name '" ++ x ++ "' is not defined")%string.

(** The use of a global name [x] in a function body. *)
Definition load_global (x : string) : result unit :=
  if existsb (String.eqb x) module_globals then Ok tt
  else Error (NameError (undefined_msg x)).

(** ** Displacer *)

(** The displacement parameter of a call: a Python [complex], or a NumPy
    complex scalar.  They differ in a division by zero. *)
Inductive number : Type :=
| PyComplex (z : C)
| NpComplex (z : C).

Definition value (a : number) : C :=
  match a with
  | PyComplex z | NpComplex z => z
  end.

Module Displacer.

(** The attributes that [__init__] sets. *)
Record t : Type := mk {
  evals : list R;
  evecs : matrix R;
  range : list Z;
  t_scale : list cfloat
}.

(** The off-diagonal of the real-symmetric tridiagonal matrix (line 232). *)
Definition sym (n : pyobj) : list R :=
  map (fun k => IZR (2 * (k mod 2) - 1) * sqrt (IZR k)) (np_arange 1 n).

Definition eigh_msg : string := "d must have one more element than e".

Section WithSolver.
(** The LAPACK driver behind [scipy.linalg.eigh_tridiagonal]: from the
    diagonal and the off-diagonal to the eigenvalues and the matrix whose
    columns are the eigenvectors. *)
Variable eigh_solver : list R -> list R -> list R * matrix R.

(** [scipy.linalg.eigh_tridiagonal(d, e)], with its size check. *)
Definition eigh_tridiagonal (d e : list R) : result (list R * matrix R) :=
  if (length d =? length e + 1)%nat then Ok (eigh_solver d e)
  else Error (ValueError eigh_msg).

(** Lines 232-236.  Each line resolves the global names it uses before it
    calls anything: [np] in line 232, [scipy] and [np] in line 234, [np] in
    line 235. *)
Definition __init__ (n : pyobj) : result t :=
  _ <- load_global "np" ;;
  let sym := sym n in
  _ <- load_global "scipy" ;;
  _ <- load_global "np" ;;
  d <- np_zeros n ;;
  es <- eigh_tridiagonal d sym ;;
  _ <- load_global "np" ;;
  let range := np_arange 0 n in
  Ok {| evals := fst es;
        evecs := snd es;
        range := range;
        t_scale := map (fun k => cf_pow (Fin Ci) (k mod 2)) range |}.
End WithSolver.

(** [np.exp(1j * np.abs(alpha) * w)] for one eigenvalue [w]. *)
Definition diag_entry (alpha : C) (w : R) : C :=
  Cexp (Cmult (Cmult Ci (RtoC (Cmod alpha))) (RtoC w)).

(** [alpha / np.abs(alpha)]: Python's own complex division raises on a zero
    divisor, NumPy's gives a non-finite value. *)
Definition unit_phase (alpha : number) : result cfloat :=
  match alpha with
  | PyComplex z =>
      if Req_dec_T (Cmod z) 0
      then Error (ZeroDivisionError "complex division by zero")
      else Ok (Fin (Cmult z (RtoC (/ Cmod z))))
  | NpComplex z => Ok (cf_div_real z (Cmod z))
  end.

(** Lines 241-245.  Line 241 reads [self.t_scale], then resolves [np] for
    [np.abs]; lines 244 and 245 resolve [np] again. *)
Definition __call__ (self : t) (alpha : number) : result (matrix cfloat) :=
  let scale := t_scale self in
  _ <- load_global "np" ;;
  phase <- unit_phase alpha ;;
  transform <- np_multiply scale
                 (map (fun k => cf_pow phase (- k)) (range self)) ;;
  evecs <- scale_rows transform (map (map (fun x => Fin (RtoC x))) (evecs self)) ;;
  _ <- load_global "np" ;;
  let diag := map (fun w => Fin (diag_entry (value alpha) w)) (evals self) in
  _ <- load_global "np" ;;
  right <- scale_rows diag (transpose evecs) ;;
  matmul (mconj evecs) right.

(** *** Instances in a store

    Python objects live in a store and are reached through references; a
    call receives the store and hands it back. *)

Definition store : Type := list t.
Definition ref : Type := nat.

Section StoreWithSolver.
Variable eigh_solver : list R -> list R -> list R * matrix R.

(** [Displacer(n)]: a fresh instance, initialised by [__init__]. *)
Definition new (n : pyobj) (s : store) : result (ref * store) :=
  self <- __init__ eigh_solver n ;;
  Ok (length s, s ++ [self]).
End StoreWithSolver.

(** [g(alpha)] for a reference [g]: the attributes are read, none is
    written. *)
Definition evaluate (g : ref) (alpha : number) (s : store)
  : result (matrix cfloat * store) :=
  match nth_error s g with
  | Some self => D <- __call__ self alpha ;; Ok (D, s)
  | None => Error (TypeError "not a Displacer instance")
  end.

End Displacer.
(** ** rot and the Pauli operators *)

(** [phi, theta, omega = params] *)
Definition unpack3 (params : list R) : result (R * R * R) :=
  match params with
  | [phi; theta; omega] => Ok (phi, theta, omega)
  | _ :: _ :: _ :: _ :: _ => Error (ValueError "too many values to unpack (expected 3)")
  | _ => Error (ValueError "not enough values to unpack")
  end.

(** [jnp.exp(c * 1j * x)] for the real constant [c] and the real [x]. *)
Definition exp_j (c x : R) : C := Cexp (Cmult (mkC 0 c) (RtoC x)).

Definition rot (params : list R) : result (matrix C) :=
  a <- unpack3 params ;;
  let '(phi, theta, omega) := a in
  let cos := cos (theta / 2) in
  let sin := sin (theta / 2) in
  Ok [[Cmult (exp_j (- (1 / 2)) (phi + omega)) (RtoC cos);
       Cmult (Copp (exp_j (1 / 2) (phi - omega))) (RtoC sin)];
      [Cmult (exp_j (- (1 / 2)) (phi - omega)) (RtoC sin);
       Cmult (exp_j (1 / 2) (phi + omega)) (RtoC cos)]].

Definition sigmax : matrix R := [[0; 1]; [1; 0]].

Definition sigmay : matrix C :=
  [[mkC 0 0; mkC 0 (- (1))]; [mkC 0 1; mkC 0 0]].

Definition sigmaz : matrix R := [[1; 0]; [0; - (1)]].

(** The promotion of a real array to a complex one, as NumPy does when the
    two meet in a product. *)
Definition to_complex (M : matrix R) : matrix C := map (map RtoC) M.

(** The 2-by-2 identity and a complex multiple of a matrix. *)
Definition eye2 : matrix C := [[C1; C0]; [C0; C1]].
Definition mscale (z : C) (M : matrix C) : matrix C := map (map (Cmult z)) M.

(** The conjugate transpose of a complex matrix. *)
Definition adjoint (M : matrix C) : matrix C := mconj (transpose M).

(** The determinant of a 2-by-2 matrix. *)
Definition det2 (M : matrix C) : C :=
  Cminus (Cmult (entry M 0 0) (entry M 1 1)) (Cmult (entry M 0 1) (entry M 1 0)).

(** The density matrix [psi psi^dagger] of a ket. *)
Definition outer (psi : list C) : matrix C :=
  map (fun x => map (fun y => Cmult x (Cconj y)) psi) psi.

(** A matrix equal to its conjugate transpose, entry by entry. *)
Definition hermitian (n : nat) (O : matrix C) : Prop :=
  forall i j, (i < n)%nat -> (j < n)%nat -> entry O i j = Cconj (entry O j i).

(** The inner product [a^dagger b] of two kets given by their entries, and
    the squared norm of a ket. *)
Definition inner (a b : list C) : C := dot1 (map Cconj a) b.
Definition norm2 (a : list C) : R := ssum (map Cnorm2 a).

(** The quadratic form [psi^dagger O psi] of an [n]-by-[n] matrix. *)
Definition quadratic_form (n : nat) (O : matrix C) (psi : list C) : C :=
  Csum (fun i => Cmult (Cconj (nth i psi C0))
                       (Csum (fun j => Cmult (entry O i j) (nth j psi C0)) n)) n.

(** * Properties *)

(** ** Lists and ranges *)

Lemma arange_length (a b : Z) : length (arange a b) = Z.to_nat (b - a).
Proof. unfold arange. now rewrite length_map, length_seq. Qed.

Lemma arange_nth (a b : Z) (k : nat) (d : Z) :
  (k < Z.to_nat (b - a))%nat -> nth k (arange a b) d = (a + Z.of_nat k)%Z.
Proof.
  intros Hk. unfold arange.
  rewrite nth_indep with (d' := (a + Z.of_nat 0)%Z)
    by now rewrite length_map, length_seq.
  rewrite (map_nth (fun i => (a + Z.of_nat i)%Z)).
  now rewrite seq_nth.
Qed.

Lemma map_nth_in {A B : Type} (f : A -> B) (l : list A) (k : nat) (da : A) (db : B) :
  (k < length l)%nat -> nth k (map f l) db = f (nth k l da).
Proof.
  intros Hk. rewrite nth_indep with (d' := f da) by now rewrite length_map.
  apply map_nth.
Qed.

(** ** Arrays given by their entries *)

Section ArrayFacts.
Context {X : Type} `{Scalar X}.

Lemma mk_vec_length (n : nat) (f : nat -> X) : length (mk_vec n f) = n.
Proof. unfold mk_vec. now rewrite length_map, length_seq. Qed.

Lemma mk_vec_nth (n : nat) (f : nat -> X) (k : nat) (d : X) :
  (k < n)%nat -> nth k (mk_vec n f) d = f k.
Proof.
  intros Hk. unfold mk_vec.
  rewrite map_nth_in with (da := O) by now rewrite length_seq.
  now rewrite seq_nth.
Qed.

Lemma mk_vec_ext (n : nat) (f g : nat -> X) :
  (forall k, (k < n)%nat -> f k = g k) -> mk_vec n f = mk_vec n g.
Proof.
  intros Hfg. unfold mk_vec. apply map_ext_in.
  intros k Hk. apply in_seq in Hk. apply Hfg. lia.
Qed.

Lemma vec_as_mk_vec (l : list X) (d : X) :
  l = mk_vec (length l) (fun k => nth k l d).
Proof.
  apply nth_ext with (d := d) (d' := d).
  - now rewrite mk_vec_length.
  - intros k Hk. now rewrite mk_vec_nth.
Qed.

Lemma mk_matrix_length (r c : nat) (f : nat -> nat -> X) :
  length (mk_matrix r c f) = r.
Proof. unfold mk_matrix. now rewrite length_map, length_seq. Qed.

Lemma mk_matrix_row (r c : nat) (f : nat -> nat -> X) (p : nat) :
  (p < r)%nat -> nth p (mk_matrix r c f) [] = mk_vec c (f p).
Proof.
  intros Hp. unfold mk_matrix.
  rewrite map_nth_in with (da := O) by now rewrite length_seq.
  now rewrite seq_nth.
Qed.

Lemma mk_matrix_entry (r c : nat) (f : nat -> nat -> X) (p q : nat) :
  (p < r)%nat -> (q < c)%nat -> entry (mk_matrix r c f) p q = f p q.
Proof.
  intros Hp Hq. unfold entry. rewrite mk_matrix_row by assumption.
  now apply mk_vec_nth.
Qed.

Lemma mk_matrix_ext (r c : nat) (f g : nat -> nat -> X) :
  (forall p q, (p < r)%nat -> (q < c)%nat -> f p q = g p q) ->
  mk_matrix r c f = mk_matrix r c g.
Proof.
  intros Hfg. unfold mk_matrix. apply map_ext_in.
  intros p Hp. apply in_seq in Hp. apply mk_vec_ext.
  intros q Hq. apply Hfg; lia.
Qed.

Lemma mk_matrix_ncols (r c : nat) (f : nat -> nat -> X) :
  (0 < r)%nat -> ncols (mk_matrix r c f) = c.
Proof.
  intros Hr. destruct r as [| r]; [lia |].
  unfold mk_matrix. simpl. apply mk_vec_length.
Qed.

Lemma matrix_as_mk_matrix (r c : nat) (M : matrix X) :
  rectangular r c M -> M = mk_matrix r c (entry M).
Proof.
  intros [Hr Hc].
  apply nth_ext with (d := []) (d' := []).
  - now rewrite mk_matrix_length.
  - intros p Hp. rewrite mk_matrix_row by lia.
    assert (Hlen : length (nth p M []) = c).
    { rewrite Forall_forall in Hc. apply Hc. now apply nth_In. }
    rewrite (vec_as_mk_vec (nth p M []) szero) at 1.
    now rewrite Hlen.
Qed.

Lemma zip_with_mk {A B D : Type} (h : A -> B -> D) (n : nat)
      (f : nat -> A) (g : nat -> B) :
  zip_with h (map f (seq 0 n)) (map g (seq 0 n)) =
  map (fun k => h (f k) (g k)) (seq 0 n).
Proof.
  generalize O. induction n as [| n IH]; intros s; simpl; [reflexivity |].
  now rewrite IH.
Qed.

Lemma column_mk_matrix (r c : nat) (f : nat -> nat -> X) (q : nat) :
  (q < c)%nat -> column (mk_matrix r c f) q = mk_vec r (fun p => f p q).
Proof.
  intros Hq. unfold column, mk_matrix, mk_vec at 2. rewrite map_map.
  apply map_ext_in. intros p Hp. now apply mk_vec_nth.
Qed.

Lemma transpose_mk_matrix (r c : nat) (f : nat -> nat -> X) :
  (0 < r)%nat ->
  transpose (mk_matrix r c f) = mk_matrix c r (fun q p => f p q).
Proof.
  intros Hr. unfold transpose. rewrite mk_matrix_ncols by assumption.
  unfold mk_matrix at 2. apply map_ext_in. intros q Hq.
  apply in_seq in Hq. apply column_mk_matrix. lia.
Qed.

Lemma dot1_mk_vec (n : nat) (f g : nat -> X) :
  dot1 (mk_vec n f) (mk_vec n g) = ssum (mk_vec n (fun k => smul (f k) (g k))).
Proof. unfold dot1, mk_vec. now rewrite zip_with_mk. Qed.

Lemma matmul_mk_matrix (r m c : nat) (f g : nat -> nat -> X) :
  (0 < m)%nat ->
  map (fun row => map (dot1 row) (transpose (mk_matrix m c g))) (mk_matrix r m f) =
  mk_matrix r c (fun p q => ssum (mk_vec m (fun k => smul (f p k) (g k q)))).
Proof.
  intros Hm. rewrite transpose_mk_matrix by assumption.
  unfold mk_matrix at 2 3. rewrite map_map. apply map_ext. intros p.
  unfold mk_matrix. unfold mk_vec at 3. rewrite map_map.
  apply map_ext. intros q. apply dot1_mk_vec.
Qed.

End ArrayFacts.

(** ** Complex arithmetic *)

Lemma C_eq (a b : C) : Re a = Re b -> Im a = Im b -> a = b.
Proof. destruct a, b; simpl; intros -> ->; reflexivity. Qed.

Lemma Cnorm2_nonneg (a : C) : 0 <= Cnorm2 a.
Proof. unfold Cnorm2. nra. Qed.

Lemma Cnorm2_eq_0 (a : C) : Cnorm2 a = 0 -> a = C0.
Proof.
  unfold Cnorm2. intros H. apply C_eq; simpl; nra.
Qed.

Lemma Cnorm2_mult (a b : C) : Cnorm2 (Cmult a b) = Cnorm2 a * Cnorm2 b.
Proof. unfold Cnorm2, Cmult. simpl. ring. Qed.

Lemma Cnorm2_conj (z : C) : Cnorm2 (Cconj z) = Cnorm2 z.
Proof. unfold Cnorm2. simpl. ring. Qed.

(** ** The generator of displacement operators (C1-C4, C8)

    The module binds neither [np] nor [scipy]; the constructor stops at the
    first use of [np], in line 232, and a call at the first use of [np], in
    line 241. *)

Lemma np_unbound :
  load_global "np" = Error (NameError (undefined_msg "np")).
Proof. reflexivity. Qed.

Lemma scipy_unbound :
  load_global "scipy" = Error (NameError (undefined_msg "scipy")).
Proof. reflexivity. Qed.

(** The names that the other functions use are bound. *)
Lemma imports_bound :
  Forall (fun x => load_global x = Ok tt)
         ["jnp"; "csr_matrix"; "index"; "index_update"; "expm"; "sqrtm";
          "matrix_power"; "destroy"; "create"]%string.
Proof. repeat constructor. Qed.

Lemma init_name_error (eigh_solver : list R -> list R -> list R * matrix R)
      (n : pyobj) :
  Displacer.__init__ eigh_solver n = Error (NameError (undefined_msg "np")).
Proof. reflexivity. Qed.

Lemma call_name_error (self : Displacer.t) (alpha : number) :
  Displacer.__call__ self alpha = Error (NameError (undefined_msg "np")).
Proof. reflexivity. Qed.

Lemma new_name_error (eigh_solver : list R -> list R -> list R * matrix R)
      (n : pyobj) (s : Displacer.store) :
  Displacer.new eigh_solver n s = Error (NameError (undefined_msg "np")).
Proof. unfold Displacer.new. now rewrite init_name_error. Qed.

Lemma evaluate_raises (g : Displacer.ref) (alpha : number) (s : Displacer.store) :
  raises (Displacer.evaluate g alpha s).
Proof.
  unfold Displacer.evaluate. destruct (nth_error s g) as [self |].
  - rewrite call_name_error. eexists. reflexivity.
  - eexists. reflexivity.
Qed.

(** C1 at the failing inputs: for every dimension [n], of any type, and
    whatever the eigensolver would do, the constructor raises the
    [NameError] of [np] in line 232 and returns no generator: no phase
    scale is computed. *)
Theorem construction_raises
        (eigh_solver : list R -> list R -> list R * matrix R) (n : pyobj) :
  Displacer.__init__ eigh_solver n = Error (NameError (undefined_msg "np")) /\
  forall g, Displacer.__init__ eigh_solver n <> Ok g.
Proof.
  split; [apply init_name_error |].
  intros g. rewrite init_name_error. discriminate.
Qed.

(** C2 at the failing inputs: a call on an object that has the four
    attributes raises the [NameError] of [np] in line 241, for every
    displacement parameter, and returns no matrix. *)
Theorem call_raises (self : Displacer.t) (alpha : number) :
  Displacer.__call__ self alpha = Error (NameError (undefined_msg "np")) /\
  forall D, Displacer.__call__ self alpha <> Ok D.
Proof.
  split; [apply call_name_error |].
  intros D. rewrite call_name_error. discriminate.
Qed.

(** C3 at the failing inputs: constructing a generator of any dimension
    and evaluating it at any displacement parameter raises the
    [NameError] of [np]; no matrix is returned that could be unitary. *)
Theorem displacement_raises
        (eigh_solver : list R -> list R -> list R * matrix R)
        (n : pyobj) (alpha : number) (s : Displacer.store) :
  (gs <- Displacer.new eigh_solver n s ;;
   Displacer.evaluate (fst gs) alpha (snd gs)) =
  Error (NameError (undefined_msg "np")).
Proof. now rewrite new_name_error. Qed.

(** C4 at the failing inputs: a call raises for every displacement
    parameter, zero or not, a Python or a NumPy number, and its outcome
    does not depend on the parameter: nothing tests [alpha] before line 241
    resolves [np]. *)
Theorem call_ignores_alpha (self : Displacer.t) (alpha : number) :
  raises (Displacer.__call__ self alpha) /\
  Displacer.__call__ self alpha = Displacer.__call__ self (PyComplex C0) /\
  Displacer.__call__ self alpha = Displacer.__call__ self (NpComplex C1).
Proof.
  rewrite !call_name_error. split; [eexists; reflexivity |].
  split; reflexivity.
Qed.

(** C8 at the failing inputs: no generator enters the store, whatever the
    dimension, and a call through any reference raises (the [NameError] of
    [np] when the reference is to an object with the four attributes), so
    there are no two results to compare. *)
Theorem no_generator_to_evaluate :
  (forall eigh_solver n s,
      Displacer.new eigh_solver n s = Error (NameError (undefined_msg "np"))) /\
  (forall g alpha s, raises (Displacer.evaluate g alpha s)) /\
  (forall self alpha s,
      Displacer.evaluate (length s) alpha (s ++ [self]) =
      Error (NameError (undefined_msg "np"))).
Proof.
  split; [intros; apply new_name_error |].
  split; [intros; apply evaluate_raises |].
  intros self alpha s. unfold Displacer.evaluate.
  rewrite nth_error_app2, Nat.sub_diag by lia. cbn [nth_error].
  now rewrite call_name_error.
Qed.

(** ** The shape dispatch of fidelity and expect (C10) *)

(** C10, as the code has it: both dispatches read index 1 of the shape of
    the first (respectively state) argument, so a one-dimensional first
    argument makes the call fail with an index error.  [expect] takes the
    density-matrix branch exactly when the state has a second axis of length
    at least 2.  [fidelity] tests both arguments: it takes that branch
    exactly when the first argument has a second axis and either this axis
    or the second axis of the second argument has length at least 2. *)
Theorem shape_dispatch :
  (forall sqrtm_square v b,
      fidelity sqrtm_square (Arr1 v) b =
      Error (IndexError "tuple index out of range")) /\
  (forall oper v,
      expect oper (Arr1 v) = Error (IndexError "tuple index out of range")) /\
  (forall state,
      expect_dispatch state = Ok DensityMatrix <->
      exists d, second_axis state = Some d /\ (2 <= d)%nat) /\
  (forall a b,
      fidelity_dispatch a b = Ok DensityMatrix <->
      exists d, second_axis a = Some d /\
                ((2 <= d)%nat \/
                 exists d', second_axis b = Some d' /\ (2 <= d')%nat)).
Proof.
  split; [reflexivity |]. split; [reflexivity |]. split.
  - intros state. unfold expect_dispatch, second_axis, tuple_get.
    destruct (nth_error (shape state) 1) as [d |]; cbn [bind].
    + destruct (Nat.leb_spec 2 d); split.
      * intros _. exists d. split; [reflexivity | lia].
      * reflexivity.
      * discriminate.
      * intros (d' & [= <-] & Hd). lia.
    + split; [discriminate | intros (d & Hd & _); discriminate].
  - intros a b. unfold fidelity_dispatch, second_axis, tuple_get.
    destruct (nth_error (shape a) 1) as [d |]; cbn [bind].
    2:{ split; [discriminate | intros (d & Hd & _); discriminate]. }
    destruct (Nat.leb_spec 2 d) as [Hd | Hd].
    { split; [| reflexivity]. intros _. exists d. split; [reflexivity | now left]. }
    destruct (nth_error (shape b) 1) as [d' |]; cbn [bind].
    2:{ split; [discriminate |].
        intros (d0 & [= <-] & [H2 | (d' & Hd' & _)]); [lia | discriminate]. }
    destruct (Nat.leb_spec 2 d') as [Hd' | Hd']; split.
    + intros _. exists d. split; [reflexivity |]. right. exists d'. now split.
    + reflexivity.
    + discriminate.
    + intros (d0 & [= <-] & [H2 | (d1 & [= <-] & H2)]); lia.
Qed.

(** C10 as the specification states it fails for [fidelity]: with a column
    ket first and a 2-by-2 density matrix second, the density-matrix branch
    is taken although the second axis of the first argument has length 1. *)
Lemma fidelity_dispatch_reads_second_argument :
  second_axis (column_ket [C1; C0]) = Some 1%nat /\
  fidelity_dispatch (column_ket [C1; C0]) (Arr2 [[C1; C0]; [C0; C0]]) =
    Ok DensityMatrix.
Proof. split; reflexivity. Qed.

(** ** Dimension checks (C5) and the ladder operators (C6) *)

Lemma arange_last (a b d : Z) : (a < b)%Z -> last (arange a b) d = (b - 1)%Z.
Proof.
  intros Hab. unfold arange.
  replace (Z.to_nat (b - a)) with (S (Z.to_nat (b - a - 1))) by lia.
  rewrite seq_S, map_app. cbn [map]. rewrite last_last. lia.
Qed.

Lemma arange_nth0 (b : Z) : (0 < b)%Z -> nth 0 (arange 0 b) 0%Z = 0%Z.
Proof. intros Hb. rewrite arange_nth by lia. reflexivity. Qed.

Lemma csr_matrix_error (data : list R) (ind ptr : list Z) (shp : Z * Z) (e : exn) :
  csr_matrix data ind ptr shp = Error e -> e <> ValueError dimension_msg.
Proof.
  unfold csr_matrix.
  repeat match goal with
         | |- context [if ?c then _ else _] => destruct c
         end; intros [= <-]; discriminate.
Qed.

Lemma jnp_arange1_error (stop : Z) (e : exn) :
  jnp_arange1 stop = Error e -> e = TypeError iota_msg.
Proof.
  unfold jnp_arange1. destruct (stop <? 0)%Z; [| discriminate].
  now intros [= <-].
Qed.

Lemma destroy_arrays_error (N : Z) (e : exn) :
  destroy_arrays N = Error e -> e = TypeError iota_msg.
Proof.
  unfold destroy_arrays. destruct (jnp_arange1 (N + 1)) as [ptr | e'] eqn:Hp;
    cbn [bind]; [discriminate |].
  intros [= <-]. now apply jnp_arange1_error in Hp.
Qed.

Lemma create_arrays_error (N : Z) (e : exn) :
  create_arrays N = Error e -> e = TypeError iota_msg.
Proof.
  unfold create_arrays. destruct (jnp_arange1 (N + 1)) as [ptr | e'] eqn:Hp;
    cbn [bind]; [discriminate |].
  intros [= <-]. now apply jnp_arange1_error in Hp.
Qed.

Lemma ladder_error (N : pyobj) (full : bool)
      (arrays : Z -> result (list R * list Z * list Z)) :
  (forall n e, arrays n = Error e -> e = TypeError iota_msg) ->
  (if negb (is_integer N) then Error (ValueError dimension_msg)
   else
     let n := int_of N in
     a <- arrays n ;;
     let '(data, ind, ptr) := a in
     m <- csr_matrix data ind ptr (n, n) ;;
     if full then Ok (Sparse m) else Ok (Dense (toarray m)))
  = Error (ValueError dimension_msg) <-> is_integer N = false.
Proof.
  intros Harr.
  destruct (is_integer N); cbn [negb]; split; try reflexivity; try discriminate.
  destruct (arrays (int_of N)) as [[[data ind] ptr] | e] eqn:Ha; cbn [bind].
  - destruct (csr_matrix data ind ptr _) as [m | e] eqn:Hm; cbn [bind].
    + destruct full; discriminate.
    + intros [= ->]. now apply csr_matrix_error in Hm.
  - intros [= ->]. apply Harr in Ha. discriminate.
Qed.

(** C5, as the code has it: [destroy] and [create] raise their dimension
    error exactly when [N] is not an integer (a Python [int] or a
    [jnp.integer]); there is no positivity test. *)
Theorem dimension_checks :
  (forall N full,
      destroy N full = Error (ValueError dimension_msg) <-> is_integer N = false) /\
  (forall N full,
      create N full = Error (ValueError dimension_msg) <-> is_integer N = false).
Proof.
  split; intros N full.
  - apply (ladder_error N full destroy_arrays), destroy_arrays_error.
  - apply (ladder_error N full create_arrays), create_arrays_error.
Qed.

Lemma destroy_arrays_eq (N : Z) :
  (0 <= N + 1)%Z ->
  destroy_arrays N =
  Ok (map (fun k => sqrt (IZR k)) (arange 1 N), arange 1 N, arange 0 (N + 1)).
Proof.
  intros HN. unfold destroy_arrays, jnp_arange1, jnp_arange.
  destruct (Z.ltb_spec (N + 1) 0); [lia | reflexivity].
Qed.

Lemma create_arrays_eq (N : Z) :
  (0 <= N + 1)%Z ->
  create_arrays N =
  Ok (map (fun k => sqrt (IZR k)) (arange 1 N), arange 0 (N - 1),
      arange 0 (N + 1)).
Proof.
  intros HN. unfold create_arrays, jnp_arange1, jnp_arange.
  destruct (Z.ltb_spec (N + 1) 0); [lia | reflexivity].
Qed.

Lemma csr_matrix_last_pointer (data : list R) (ind : list Z) (N : Z) :
  (1 <= N)%Z -> length data = Z.to_nat (N - 1) -> length ind = Z.to_nat (N - 1) ->
  csr_matrix data ind (arange 0 (N + 1)) (N, N) =
  Error (ValueError indptr_last_msg).
Proof.
  intros HN Hdata Hind. unfold csr_matrix. cbn [fst snd].
  destruct (Z.ltb_spec N 0) as [Hneg | _]; [lia |]. cbn [orb].
  rewrite arange_length.
  destruct (Z.eqb_spec (Z.of_nat (Z.to_nat (N + 1 - 0))) (N + 1)) as [_ | Hne];
    [| lia]. cbn [negb].
  rewrite arange_nth0 by lia. cbn [Z.eqb negb].
  rewrite Hdata, Hind, Nat.eqb_refl. cbn [negb].
  rewrite arange_last by lia.
  destruct (Z.ltb_spec (Z.of_nat (Z.to_nat (N - 1))) (N + 1 - 1)) as [_ | Hge];
    [reflexivity | lia].
Qed.

Lemma destroy_raises (N : Z) (full : bool) :
  (1 <= N)%Z -> destroy (PyInt N) full = Error (ValueError indptr_last_msg).
Proof.
  intros HN. unfold destroy. cbn [is_integer negb int_of].
  rewrite destroy_arrays_eq by lia. cbn [bind].
  rewrite csr_matrix_last_pointer;
    try assumption; try (rewrite ?length_map, arange_length; lia).
  reflexivity.
Qed.

Lemma create_raises (N : Z) (full : bool) :
  (1 <= N)%Z -> create (PyInt N) full = Error (ValueError indptr_last_msg).
Proof.
  intros HN. unfold create. cbn [is_integer negb int_of].
  rewrite create_arrays_eq by lia. cbn [bind].
  rewrite csr_matrix_last_pointer;
    try assumption; try (rewrite ?length_map, arange_length; lia).
  reflexivity.
Qed.

(** For an integer [N <= -2] the row pointers are not built: the
    one-argument [jnp.arange(N + 1)] refuses the negative length. *)
Lemma destroy_negative (N : Z) (full : bool) :
  (N <= -2)%Z -> destroy (PyInt N) full = Error (TypeError iota_msg).
Proof.
  intros HN. unfold destroy, destroy_arrays, jnp_arange1.
  cbn [is_integer negb int_of].
  destruct (Z.ltb_spec (N + 1) 0); [reflexivity | lia].
Qed.

Lemma create_negative (N : Z) (full : bool) :
  (N <= -2)%Z -> create (PyInt N) full = Error (TypeError iota_msg).
Proof.
  intros HN. unfold create, create_arrays, jnp_arange1.
  cbn [is_integer negb int_of].
  destruct (Z.ltb_spec (N + 1) 0); [reflexivity | lia].
Qed.

(** C5 as the specification states it fails.  The integer -3 is not
    positive, and [destroy(-3)] and [create(-3)] pass the dimension test:
    they fail later, with the [TypeError] of [jnp.arange].  The integer 2
    is positive, and [destroy(2)] and the construction of a generator of
    dimension 2 fail all the same. *)
Lemma dimension_checks_not_positivity :
  destroy (PyInt (-3)) false = Error (TypeError iota_msg) /\
  create (PyInt (-3)) false = Error (TypeError iota_msg) /\
  destroy (PyInt (-3)) false <> Error (ValueError dimension_msg) /\
  destroy (PyInt 2) false = Error (ValueError indptr_last_msg) /\
  Displacer.__init__ (fun d _ => (d, [])) (PyInt 2) =
    Error (NameError (undefined_msg "np")).
Proof.
  split; [apply destroy_negative; lia |].
  split; [apply create_negative; lia |].
  split; [rewrite destroy_negative by lia; discriminate |].
  split; [apply destroy_raises; lia | apply init_name_error].
Qed.

(** C6 at the failing inputs: for every dimension [N >= 1] and both values
    of the flag, the arrays that [destroy] and [create] hand over keep
    [arange(N + 1)] as row pointers, with last pointer [N], for [N - 1]
    stored entries; the CSR constructor rejects them and no matrix is
    returned. *)
Theorem ladder_operators_raise (N : Z) (full : bool) :
  (1 <= N)%Z ->
  exists data ind data' ind',
    destroy_arrays N = Ok (data, ind, arange 0 (N + 1)) /\
    create_arrays N = Ok (data', ind', arange 0 (N + 1)) /\
    last (arange 0 (N + 1)) 0%Z = N /\
    Z.of_nat (length data) = (N - 1)%Z /\
    Z.of_nat (length data') = (N - 1)%Z /\
    destroy (PyInt N) full = Error (ValueError indptr_last_msg) /\
    create (PyInt N) full = Error (ValueError indptr_last_msg).
Proof.
  intros HN.
  exists (map (fun k => sqrt (IZR k)) (arange 1 N)), (arange 1 N).
  exists (map (fun k => sqrt (IZR k)) (arange 1 N)), (arange 0 (N - 1)).
  split; [apply destroy_arrays_eq; lia |].
  split; [apply create_arrays_eq; lia |].
  split; [rewrite arange_last; lia |].
  rewrite length_map, arange_length.
  split; [lia |]. split; [lia |].
  split; [now apply destroy_raises | now apply create_raises].
Qed.

Lemma ladder_operators_raise_witness :
  destroy (PyInt 2) false = Error (ValueError indptr_last_msg) /\
  create (PyInt 2) false = Error (ValueError indptr_last_msg).
Proof.
  destruct (ladder_operators_raise 2 false) as (_ & _ & _ & _ & _ & _ & _ & _ & _ & Hd & Hc);
    [lia | now split].
Defined.

(** The arrays of [create(2)], read row by row without the format check,
    put [sqrt(1)] on the diagonal entry [(0, 0)] and nothing at [(1, 0)],
    where the raising operator has its entry; the update of line 173 would
    not have changed the row pointers even in place. *)
Lemma create_arrays_not_raising :
  create_arrays 2 = Ok ([sqrt 1], [0%Z], [0%Z; 1%Z; 2%Z]) /\
  index_update [0%Z; 1%Z; 2%Z] 0 0 = [0%Z; 1%Z; 2%Z] /\
  csr_entry [sqrt 1] [0%Z] [0%Z; 1%Z; 2%Z] 0 0 = sqrt 1 + 0 /\
  raising_entry 0 0 = 0 /\
  csr_entry [sqrt 1] [0%Z] [0%Z; 1%Z; 2%Z] 1 0 = 0 /\
  raising_entry 1 0 = sqrt (INR 1).
Proof. repeat split; reflexivity. Qed.

(** The arrays of [destroy(3)], and what they would denote had the update
    of line 145 taken effect on the row pointers: the lowering operator. *)
Lemma destroy_arrays_with_update :
  destroy_arrays 3 = Ok ([sqrt 1; sqrt 2], [1%Z; 2%Z], [0%Z; 1%Z; 2%Z; 3%Z]) /\
  index_update [0%Z; 1%Z; 2%Z; 3%Z] (-1) (3 - 1) = [0%Z; 1%Z; 2%Z; 2%Z] /\
  forall i j, (i < 3)%nat -> (j < 3)%nat ->
    csr_entry [sqrt 1; sqrt 2] [1%Z; 2%Z] [0%Z; 1%Z; 2%Z; 2%Z] i j =
    lowering_entry i j.
Proof.
  split; [reflexivity |]. split; [reflexivity |].
  intros i j Hi Hj.
  assert (Hc : forall k, (k < 3)%nat -> k = 0%nat \/ k = 1%nat \/ k = 2%nat)
    by (intros; lia).
  destruct (Hc i Hi) as [-> | [-> | ->]];
    destruct (Hc j Hj) as [-> | [-> | ->]];
    unfold lowering_entry, csr_entry; cbn;
    try change (Pos.to_nat 1) with 1%nat;
    try change (Pos.to_nat 2) with 2%nat;
    cbn; try lra.
  replace (1 + 1) with 2 by lra. lra.
Qed.

(** ** The squeezing operator (C7) *)

Section SqueezeFacts.
Variable expm : matrix C -> matrix C.

(** C7 at the failing inputs: for every dimension [N >= 1] and every [z],
    [squeeze(N, z)] returns no matrix: [destroy(N)], which line 261 calls
    before [create(N)], raises the [ValueError] of the CSR constructor,
    whatever the matrix exponential would do. *)
Theorem squeeze_raises (N : Z) (z : C) :
  (1 <= N)%Z ->
  squeeze expm (PyInt N) z = Error (ValueError indptr_last_msg) /\
  forall S, squeeze expm (PyInt N) z <> Ok S.
Proof.
  intros HN.
  assert (H : squeeze expm (PyInt N) z = Error (ValueError indptr_last_msg)).
  { unfold squeeze. now rewrite destroy_raises. }
  split; [exact H |]. intros S. rewrite H. discriminate.
Qed.
End SqueezeFacts.

Lemma squeeze_raises_witness :
  squeeze (fun M => M) (PyInt 2) C1 = Error (ValueError indptr_last_msg).
Proof. apply (squeeze_raises (fun M => M) 2 C1). lia. Defined.

(** ** Complex numbers as a ring, finite sums *)

Declare Scope C_scope.
Delimit Scope C_scope with C.
Bind Scope C_scope with C.
Notation "a + b" := (Cplus a b) : C_scope.
Notation "a * b" := (Cmult a b) : C_scope.
Notation "a - b" := (Cminus a b) : C_scope.
Notation "- a" := (Copp a) : C_scope.

Lemma C_ring_theory : ring_theory C0 C1 Cplus Cmult Cminus Copp eq.
Proof. constructor; intros; apply C_eq; simpl; ring. Qed.

Add Ring C_ring : C_ring_theory.

Lemma Cconj_mult (a b : C) : Cconj (a * b) = (Cconj a * Cconj b)%C.
Proof. apply C_eq; simpl; ring. Qed.

Lemma Cconj_plus (a b : C) : Cconj (a + b) = (Cconj a + Cconj b)%C.
Proof. apply C_eq; simpl; ring. Qed.

Lemma Cconj_conj (a : C) : Cconj (Cconj a) = a.
Proof. apply C_eq; simpl; ring. Qed.

Lemma Cconj_RtoC (x : R) : Cconj (RtoC x) = RtoC x.
Proof. apply C_eq; simpl; ring. Qed.

Lemma RtoC_mult (x y : R) : RtoC (x * y) = (RtoC x * RtoC y)%C.
Proof. apply C_eq; simpl; ring. Qed.

Lemma RtoC_plus (x y : R) : RtoC (x + y) = (RtoC x + RtoC y)%C.
Proof. apply C_eq; simpl; ring. Qed.

Lemma ssum_snoc (l : list C) (x : C) : ssum (l ++ [x]) = (ssum l + x)%C.
Proof.
  unfold ssum. induction l as [| y l IH]; simpl.
  - ring.
  - simpl in IH. rewrite IH. ring.
Qed.

Lemma Csum_S (f : nat -> C) (n : nat) : Csum f (S n) = (Csum f n + f n)%C.
Proof.
  unfold Csum, mk_vec. rewrite seq_S, map_app. cbn [map].
  now rewrite ssum_snoc.
Qed.

Lemma Csum_O (f : nat -> C) : Csum f 0 = C0.
Proof. reflexivity. Qed.

Lemma Csum_ext (f g : nat -> C) (n : nat) :
  (forall k, (k < n)%nat -> f k = g k) -> Csum f n = Csum g n.
Proof.
  intros Hfg. unfold Csum. f_equal. now apply mk_vec_ext.
Qed.

Lemma Csum_zero (n : nat) : Csum (fun _ => C0) n = C0.
Proof.
  induction n as [| n IH]; [reflexivity |].
  rewrite Csum_S, IH. ring.
Qed.

Lemma Csum_plus (f g : nat -> C) (n : nat) :
  Csum (fun k => f k + g k)%C n = (Csum f n + Csum g n)%C.
Proof.
  induction n as [| n IH]; [rewrite !Csum_O; ring |].
  rewrite !Csum_S, IH. ring.
Qed.

Lemma Csum_scal (c : C) (f : nat -> C) (n : nat) :
  Csum (fun k => c * f k)%C n = (c * Csum f n)%C.
Proof.
  induction n as [| n IH]; [rewrite !Csum_O; ring |].
  rewrite !Csum_S, IH. ring.
Qed.

Lemma Csum_swap (f : nat -> nat -> C) (n m : nat) :
  Csum (fun i => Csum (fun j => f i j) m) n =
  Csum (fun j => Csum (fun i => f i j) n) m.
Proof.
  induction n as [| n IH].
  - rewrite Csum_O. symmetry. apply Csum_zero.
  - rewrite Csum_S, IH. rewrite <- Csum_plus.
    apply Csum_ext. intros j _. now rewrite Csum_S.
Qed.

Lemma Csum_conj (f : nat -> C) (n : nat) :
  Cconj (Csum f n) = Csum (fun k => Cconj (f k)) n.
Proof.
  induction n as [| n IH]; [apply C_eq; simpl; ring |].
  now rewrite !Csum_S, Cconj_plus, IH.
Qed.

Lemma Csum_scal_r (c : C) (f : nat -> C) (n : nat) :
  Csum (fun k => f k * c)%C n = (Csum f n * c)%C.
Proof.
  rewrite (Csum_ext _ (fun k => c * f k)%C) by (intros; ring).
  rewrite Csum_scal. ring.
Qed.


(** * Further properties *)

(** ** rot *)

Lemma exp_j_eq (c x : R) : exp_j c x = mkC (cos (c * x)) (sin (c * x)).
Proof.
  unfold exp_j, Cexp. simpl.
  replace (0 * x - c * 0) with 0 by ring.
  replace (0 * 0 + c * x) with (c * x) by ring.
  rewrite exp_0. apply C_eq; simpl; ring.
Qed.

Lemma sq_sum (x : R) : cos x * cos x + sin x * sin x = 1.
Proof. pose proof (sin2_cos2 x) as H. unfold Rsqr in H. lra. Qed.

Lemma mat2_eq (a b c d a' b' c' d' : C) :
  a = a' -> b = b' -> c = c' -> d = d' ->
  [[a; b]; [c; d]] = [[a'; b']; [c'; d']].
Proof. now intros -> -> -> ->. Qed.



(** X3: [rot] unpacks exactly three parameters: it returns if and only if
    [params] has three entries, and raises a [ValueError] otherwise. *)
Theorem rot_arity (params : list R) :
  (returns (rot params) <-> length params = 3%nat) /\
  (length params <> 3%nat -> exists msg, rot params = Error (ValueError msg)).
Proof.
  assert (Hbad : forall msg, ~ returns (@Error (matrix C) (ValueError msg)))
    by (intros msg [U HU]; discriminate).
  destruct params as [| a [| b [| c [| d l]]]]; cbn.
  1-3, 5: split; [split; [intros H; now apply Hbad in H | discriminate]
                 | intros _; eauto].
  split; [split; [reflexivity | intros _; unfold returns; eauto] | congruence].
Qed.

(** ** expect *)

Lemma transpose_column (psi : list C) :
  psi <> [] -> transpose (map (fun x => [x]) psi) = [psi].
Proof.
  intros Hne. destruct psi as [| x psi]; [congruence |].
  unfold transpose, column. cbn [map ncols length seq].
  rewrite map_map. cbn [nth]. now rewrite map_id.
Qed.

Lemma concat_singletons {A B : Type} (f : A -> B) (l : list A) :
  concat (map (fun x => [f x]) l) = map f l.
Proof. induction l as [| x l IH]; simpl; [reflexivity | now rewrite IH]. Qed.

Lemma shape_column_ket (x : C) (psi : list C) :
  shape (column_ket (x :: psi)) = [S (length psi); 1%nat].
Proof. unfold column_ket. cbn. now rewrite length_map. Qed.

Lemma rectangular_ncols {X : Type} (n c : nat) (M : list (list X)) :
  (0 < n)%nat -> length M = n /\ Forall (fun row => length row = c) M ->
  match M with [] => O | r :: _ => length r end = c.
Proof.
  intros Hn [Hlen Hall]. destruct M as [| r M]; [simpl in Hlen; lia |].
  now inversion Hall.
Qed.

Lemma expect_ket_lists (n : nat) (O : matrix C) (psi : list C) :
  (0 < n)%nat -> rectangular n n O -> length psi = n ->
  expect (Arr2 O) (column_ket psi) =
  Ok (dot1 (map Cconj psi) (map (fun row => dot1 row psi) O)).
Proof.
  intros Hn HO Hpsi.
  assert (Hne : psi <> []) by (intros ->; simpl in Hpsi; lia).
  destruct psi as [| x psi'] eqn:E; [congruence |]. rewrite <- E in *.
  unfold expect, expect_dispatch. rewrite E at 1. rewrite shape_column_ket.
  cbn [tuple_get nth_error bind Nat.leb].
  unfold _expect_ket, column_ket, jnp_dot.
  replace (ncols O) with n by (symmetry; now apply (rectangular_ncols n n O)).
  unfold nrows. rewrite length_map, Hpsi, Nat.eqb_refl. cbn [bind].
  rewrite transpose_column by assumption.
  unfold nd_transpose. rewrite transpose_column by assumption.
  unfold jnp_vdot, ravel. cbn [concat]. rewrite app_nil_r.
  cbn [map]. rewrite (concat_singletons (fun row => dot1 row psi) O).
  rewrite length_map, Hpsi. destruct HO as [-> _]. now rewrite Nat.eqb_refl.
Qed.

Lemma lists_quadratic_form (n : nat) (O : matrix C) (psi : list C) :
  rectangular n n O -> length psi = n ->
  dot1 (map Cconj psi) (map (fun row => dot1 row psi) O) =
  quadratic_form n O psi.
Proof.
  intros HO Hpsi. unfold quadratic_form, Csum.
  assert (Hrepr : psi = mk_vec n (fun k => nth k psi C0))
    by (rewrite <- Hpsi; apply vec_as_mk_vec).
  set (f := fun k => nth k psi C0) in *.
  replace (map Cconj psi) with (mk_vec n (fun i => Cconj (f i)))
    by (rewrite Hrepr at 1; unfold mk_vec; now rewrite map_map).
  replace (map (fun row => dot1 row psi) O)
    with (mk_vec n (fun i => dot1 (mk_vec n (entry O i)) (mk_vec n f))).
  2:{ rewrite (matrix_as_mk_matrix n n O HO) at 1.
      unfold mk_matrix. rewrite map_map. unfold mk_vec at 1.
      apply map_ext. intros i. now rewrite <- Hrepr. }
  rewrite dot1_mk_vec. f_equal. apply mk_vec_ext. intros i _.
  now rewrite dot1_mk_vec.
Qed.


Lemma quadratic_form_hermitian (n : nat) (O : matrix C) (psi : list C) :
  hermitian n O -> Cconj (quadratic_form n O psi) = quadratic_form n O psi.
Proof.
  intros HO. unfold quadratic_form.
  rewrite Csum_conj.
  rewrite (Csum_ext _ (fun i => Csum (fun j =>
             (Cconj (nth j psi C0) * (entry O j i * nth i psi C0))%C) n)).
  2:{ intros i Hi. rewrite Cconj_mult, Cconj_conj, Csum_conj, <- Csum_scal.
      apply Csum_ext. intros j Hj.
      rewrite Cconj_mult, (HO j i Hj Hi). ring. }
  rewrite Csum_swap. apply Csum_ext. intros i _.
  now rewrite Csum_scal.
Qed.


Lemma outer_as_mk_matrix (n : nat) (psi : list C) :
  length psi = n ->
  outer psi = mk_matrix n n (fun i j => (nth i psi C0 * Cconj (nth j psi C0))%C).
Proof.
  intros Hpsi. unfold outer.
  assert (Hrepr : psi = mk_vec n (fun k => nth k psi C0))
    by (rewrite <- Hpsi; apply vec_as_mk_vec).
  set (f := fun k => nth k psi C0) in *.
  transitivity (map (fun x => map (fun y => (x * Cconj y)%C) (mk_vec n f))
                    (mk_vec n f)); [now rewrite <- Hrepr |].
  unfold mk_matrix, mk_vec. rewrite map_map.
  apply map_ext. intros i. now rewrite map_map.
Qed.

Lemma trace_mk_matrix (n : nat) (f : nat -> nat -> C) :
  trace (mk_matrix n n f) = Csum (fun k => f k k) n.
Proof.
  unfold trace, nrows. rewrite mk_matrix_length.
  destruct n as [| n]; [reflexivity |].
  rewrite mk_matrix_ncols by lia. rewrite Nat.min_id.
  unfold Csum. f_equal. unfold mk_vec. apply map_ext_in.
  intros k Hk. apply in_seq in Hk. apply mk_matrix_entry; lia.
Qed.


(** ** The Pauli operators *)

(** X7: the Pauli matrices square to the identity, multiply cyclically,
    [sx sy = i sz], [sy sz = i sx], [sz sx = i sy], anticommute, and are
    Hermitian. *)
Theorem pauli_algebra :
  matmul (to_complex sigmax) (to_complex sigmax) = Ok eye2 /\
  matmul sigmay sigmay = Ok eye2 /\
  matmul (to_complex sigmaz) (to_complex sigmaz) = Ok eye2 /\
  matmul (to_complex sigmax) sigmay = Ok (mscale Ci (to_complex sigmaz)) /\
  matmul sigmay (to_complex sigmaz) = Ok (mscale Ci (to_complex sigmax)) /\
  matmul (to_complex sigmaz) (to_complex sigmax) = Ok (mscale Ci sigmay) /\
  matmul sigmay (to_complex sigmax) =
    Ok (mscale (Copp Ci) (to_complex sigmaz)) /\
  adjoint (to_complex sigmax) = to_complex sigmax /\
  adjoint sigmay = sigmay /\
  adjoint (to_complex sigmaz) = to_complex sigmaz.
Proof.
  repeat split; cbn; try apply f_equal; apply mat2_eq; apply C_eq; simpl; lra.
Qed.


(** ** fidelity between kets *)

Lemma transpose_conj_column (a : list C) :
  a <> [] ->
  transpose (map (map Cconj) (map (fun x => [x]) a)) = [map Cconj a].
Proof.
  intros Hne. destruct a as [| x a]; [congruence |].
  unfold transpose, column. cbn [map ncols length seq].
  rewrite !map_map. reflexivity.
Qed.

Lemma fidelity_dispatch_kets (a b : list C) :
  fidelity_dispatch (column_ket a) (column_ket b) = Ok Ket.
Proof. destruct a, b; reflexivity. Qed.

Lemma fidelity_kets (sqrtm_square : matrix C -> matrix C) (a b : list C) :
  fidelity sqrtm_square (column_ket a) (column_ket b) =
  if (length a =? length b)%nat
  then Ok (OfKets (match a with
                   | [] => Arr2 []
                   | _ :: _ => Arr2 [[Cmod (inner a b) ^ 2]]
                   end))
  else Error (TypeError dot_msg).
Proof.
  unfold fidelity. rewrite fidelity_dispatch_kets. cbn [bind].
  unfold _fidelity_ket, column_ket. cbn [map_nd nd_transpose].
  destruct a as [| x a].
  - destruct b as [| y b]; reflexivity.
  - rewrite transpose_conj_column by discriminate.
    unfold jnp_dot. cbn [ncols]. unfold nrows. rewrite !length_map.
    destruct (Nat.eqb_spec (length (x :: a)) (length b)) as [Hlen | Hlen];
      [| reflexivity].
    rewrite transpose_column by (intros ->; discriminate).
    reflexivity.
Qed.

Lemma inner_cons (x y : C) (a b : list C) :
  inner (x :: a) (y :: b) = Cplus (Cmult (Cconj x) y) (inner a b).
Proof. reflexivity. Qed.

Lemma inner_conj_sym (a b : list C) : inner b a = Cconj (inner a b).
Proof.
  revert b. induction a as [| x a IH]; intros [| y b];
    try (apply C_eq; simpl; ring).
  rewrite !inner_cons, IH, Cconj_plus, Cconj_mult, Cconj_conj. ring.
Qed.

Lemma Cmod_pow2 (z : C) : Cmod z ^ 2 = Cnorm2 z.
Proof. unfold Cmod. simpl. rewrite Rmult_1_r. apply sqrt_sqrt, Cnorm2_nonneg. Qed.

Lemma norm2_nonneg (a : list C) : 0 <= norm2 a.
Proof.
  unfold norm2, ssum. induction a as [| x a IH]; simpl; [lra |].
  pose proof (Cnorm2_nonneg x). simpl in IH. lra.
Qed.

Lemma norm2_cons (x : C) (a : list C) : norm2 (x :: a) = Cnorm2 x + norm2 a.
Proof. reflexivity. Qed.

Lemma square_le (u v : R) : 0 <= v -> u * u <= v * v -> u <= v.
Proof. intros Hv H. destruct (Rle_dec u v); [assumption | nra]. Qed.

(** The Cauchy-Schwarz inequality for the inner product of two kets. *)
Lemma cauchy_schwarz (a b : list C) :
  Cnorm2 (inner a b) <= norm2 a * norm2 b.
Proof.
  revert b. induction a as [| x a IH]; intros [| y b].
  - unfold inner, dot1, norm2, Cnorm2. simpl. lra.
  - change (inner [] (y :: b)) with C0. change (norm2 []) with 0.
    unfold Cnorm2 at 1. simpl. lra.
  - change (inner (x :: a) []) with C0. change (norm2 []) with 0.
    unfold Cnorm2 at 1. simpl. lra.
  - rewrite inner_cons, !norm2_cons.
    specialize (IH b).
    pose proof (Cnorm2_mult (Cconj x) y) as Hz. rewrite Cnorm2_conj in Hz.
    pose proof (Cnorm2_nonneg x) as HX. pose proof (Cnorm2_nonneg y) as HY.
    pose proof (norm2_nonneg a) as HA. pose proof (norm2_nonneg b) as HB.
    set (z := Cmult (Cconj x) y) in *. set (d := inner a b) in *.
    set (X := Cnorm2 x) in *. set (Y := Cnorm2 y) in *.
    set (A := norm2 a) in *. set (B := norm2 b) in *.
    clearbody z d X Y A B. destruct z as [p q], d as [r s].
    unfold Cnorm2 in *. simpl in *.
    assert (Hu : (p * r + q * s) * (p * r + q * s) <= X * Y * (A * B)).
    { assert (H1 : (p * r + q * s) * (p * r + q * s) <=
                   (p * p + q * q) * (r * r + s * s)).
      { pose proof (Rle_0_sqr (p * s - q * r)) as H0. unfold Rsqr in H0. nra. }
      rewrite Hz in H1.
      assert (H2 : X * Y * (r * r + s * s) <= X * Y * (A * B)).
      { apply Rmult_le_compat_l; [now apply Rmult_le_pos | exact IH]. }
      lra. }
    assert (Hcross : 2 * (p * r + q * s) <= X * B + A * Y).
    { apply square_le; [nra |].
      pose proof (Rle_0_sqr (X * B - A * Y)) as H0. unfold Rsqr in H0. nra. }
    nra.
Qed.

Lemma inner_scale_l (c : C) (a b : list C) :
  inner (map (Cmult c) a) b = Cmult (Cconj c) (inner a b).
Proof.
  revert b. induction a as [| x a IH]; intros [| y b];
    try (apply C_eq; simpl; ring).
  cbn [map]. rewrite !inner_cons, IH, Cconj_mult. ring.
Qed.

Lemma norm2_pos_nonempty (a : list C) : norm2 a = 1 -> a <> [].
Proof. intros H ->. unfold norm2 in H. simpl in H. lra. Qed.

Section KetFidelity.
Variable sqrtm_square : matrix C -> matrix C.

(** X9: the fidelity between two kets (column vectors) does not depend on
    their order, whatever their lengths: both orders return the same value
    or raise the same error. *)
Theorem fidelity_kets_symmetric (a b : list C) :
  fidelity sqrtm_square (column_ket a) (column_ket b) =
  fidelity sqrtm_square (column_ket b) (column_ket a).
Proof.
  rewrite !fidelity_kets. rewrite (Nat.eqb_sym (length b)).
  destruct (Nat.eqb_spec (length a) (length b)) as [Hlen | _]; [| reflexivity].
  destruct a as [| x a], b as [| y b]; try discriminate; [reflexivity |].
  rewrite !Cmod_pow2, (inner_conj_sym (x :: a) (y :: b)), Cnorm2_conj.
  reflexivity.
Qed.



(** X12: on two kets the call returns exactly when they have the same
    length; otherwise the inner product raises a [TypeError]. *)
Theorem fidelity_kets_returns_iff (a b : list C) :
  (returns (fidelity sqrtm_square (column_ket a) (column_ket b)) <->
   length a = length b) /\
  (length a <> length b ->
   fidelity sqrtm_square (column_ket a) (column_ket b) =
   Error (TypeError dot_msg)).
Proof.
  rewrite fidelity_kets.
  destruct (Nat.eqb_spec (length a) (length b)) as [Hlen | Hlen].
  - split; [| congruence]. split; [auto |]. intros _. unfold returns. eauto.
  - split; [| reflexivity]. split; [| congruence].
    intros [x Hx]. discriminate.
Qed.

(** X13: a ket together with a density matrix is not accepted.  With a
    column ket of length [n >= 2] first and any two-dimensional array with
    at least two columns second, the density-matrix branch is taken and the
    matrix square root of the ket raises a [ValueError]. *)
Theorem fidelity_ket_with_dm_raises (a : list C) (B : matrix C) :
  (2 <= length a)%nat -> (2 <= ncols B)%nat ->
  fidelity_dispatch (column_ket a) (Arr2 B) = Ok DensityMatrix /\
  fidelity sqrtm_square (column_ket a) (Arr2 B) =
    Error (ValueError "Non-square matrix input to matrix function.").
Proof.
  intros Ha HB.
  assert (Hdisp : fidelity_dispatch (column_ket a) (Arr2 B) = Ok DensityMatrix).
  { destruct a as [| x a]; [simpl in Ha; lia |].
    unfold fidelity_dispatch. rewrite shape_column_ket.
    cbn [tuple_get nth_error bind]. change (2 <=? 1)%nat with false.
    cbv iota. unfold shape.
    change (match B with [] => 0%nat | r :: _ => length r end) with (ncols B).
    cbn [tuple_get nth_error bind].
    destruct (Nat.leb_spec 2 (ncols B)); [reflexivity | lia]. }
  split; [exact Hdisp |].
  unfold fidelity. rewrite Hdisp. cbn [bind].
  unfold _fidelity_dm, sqrtm, column_ket, nrows.
  destruct a as [| x a]; [simpl in Ha; lia |].
  cbn [map ncols length]. rewrite length_map.
  destruct (Nat.eqb_spec (S (length a)) 1) as [Heq | _]; [simpl in Ha; lia |].
  reflexivity.
Qed.
End KetFidelity.



Lemma fidelity_ket_with_dm_raises_witness :
  fidelity (fun M => M) (column_ket [C1; C0]) (Arr2 [[C1; C0]; [C0; C0]]) =
    Error (ValueError "Non-square matrix input to matrix function.").
Proof.
  apply (fidelity_ket_with_dm_raises (fun M => M) [C1; C0] [[C1; C0]; [C0; C0]]);
    simpl; lia.
Defined.

(** Witnesses for the properties of [expect], on the Pauli-Z operator. *)

Lemma sigmaz_rectangular : rectangular 2 2 (to_complex sigmaz).
Proof. split; [reflexivity | repeat constructor]. Qed.

Lemma sigmaz_hermitian : hermitian 2 (to_complex sigmaz).
Proof.
  intros i j Hi Hj.
  assert (Hc : forall k, (k < 2)%nat -> k = 0%nat \/ k = 1%nat) by (intros; lia).
  destruct (Hc i Hi) as [-> | ->]; destruct (Hc j Hj) as [-> | ->];
    apply C_eq; simpl; ring.
Qed.




(** ** The ladder operators at negative dimensions *)

(** X14: for every integer [N <= -2] and both values of the flag,
    [destroy] and [create] raise a [TypeError]: the dimension test lets
    the integer pass, and the one-argument [jnp.arange(N + 1)] refuses the
    negative length before the CSR constructor is reached. *)
Theorem ladder_negative_raises (N : Z) (full : bool) :
  (N <= -2)%Z ->
  jnp_arange1 (N + 1) = Error (TypeError iota_msg) /\
  destroy (PyInt N) full = Error (TypeError iota_msg) /\
  create (PyInt N) full = Error (TypeError iota_msg).
Proof.
  intros HN. split.
  - unfold jnp_arange1. destruct (Z.ltb_spec (N + 1) 0); [reflexivity | lia].
  - split; [now apply destroy_negative | now apply create_negative].
Qed.

Lemma ladder_negative_raises_witness :
  destroy (PyInt (-5)) true = Error (TypeError iota_msg) /\
  create (PyInt (-5)) true = Error (TypeError iota_msg).
Proof. apply (ladder_negative_raises (-5) true). lia. Defined.

(** ** A density matrix together with a ket *)

Lemma transpose_length {X : Type} `{Scalar X} (M : matrix X) :
  length (transpose M) = ncols M.
Proof. unfold transpose. now rewrite length_map, length_seq. Qed.

Lemma ncols_column_ket (b : list C) :
  (ncols (map (fun x => [x]) b) <= 1)%nat.
Proof. destruct b; simpl; lia. Qed.

Section DmWithKet.
Variable sqrtm_square : matrix C -> matrix C.

(** X23: a density matrix together with a ket is not accepted either.
    With a square matrix of at least two columns first and a column ket
    second, the density-matrix branch is taken, and as long as the matrix
    square root keeps the number of rows, one of the two products with it
    raises the [TypeError] of a shape mismatch. *)
Theorem fidelity_dm_with_ket_raises (A : matrix C) (b : list C) :
  nrows A = ncols A -> (2 <= ncols A)%nat ->
  nrows (sqrtm_square A) = nrows A ->
  fidelity_dispatch (Arr2 A) (column_ket b) = Ok DensityMatrix /\
  fidelity sqrtm_square (Arr2 A) (column_ket b) = Error (TypeError dot_msg).
Proof.
  intros Hsq Hcols Hrows.
  assert (Hdisp : fidelity_dispatch (Arr2 A) (column_ket b) = Ok DensityMatrix).
  { unfold fidelity_dispatch, shape.
    change (match A with [] => 0%nat | r :: _ => length r end) with (ncols A).
    cbn [tuple_get nth_error bind].
    destruct (Nat.leb_spec 2 (ncols A)); [reflexivity | lia]. }
  split; [exact Hdisp |].
  unfold fidelity. rewrite Hdisp. cbn [bind].
  unfold _fidelity_dm, sqrtm. rewrite Hsq, Nat.eqb_refl. cbn [bind].
  unfold column_ket, jnp_dot.
  set (S := sqrtm_square A) in *.
  destruct (Nat.eqb_spec (ncols S) (nrows (map (fun x => [x]) b))) as [_ | _];
    [| reflexivity].
  cbn [bind].
  destruct S as [| row S']; [unfold nrows in *; simpl in Hrows; lia |].
  cbn [map ncols]. rewrite length_map, transpose_length.
  pose proof (ncols_column_ket b) as Hb.
  destruct (Nat.eqb_spec (ncols (map (fun x => [x]) b)) (nrows (row :: S')))
    as [Heq | _]; [| reflexivity].
  rewrite Hrows in Heq. unfold nrows in *. lia.
Qed.
End DmWithKet.

Lemma fidelity_dm_with_ket_raises_witness :
  fidelity (fun M => M) (Arr2 [[C1; C0]; [C0; C0]]) (column_ket [C1; C0]) =
    Error (TypeError dot_msg).
Proof.
  apply (fidelity_dm_with_ket_raises (fun M => M) [[C1; C0]; [C0; C0]] [C1; C0]);
    simpl; (reflexivity || lia).
Defined.
